(** * true_color: tone curve, saturation enhancement and sRGB encoding

    A shallow embedding of [src/true_color/true_color.py].

    Numbers.  The program computes on binary64 floats through numpy.  The
    embedding works in exact real arithmetic: every float operation is
    read as the real operation it rounds, and not-a-number inputs are left
    out.  All statements below are statements about this exact reading.
    Ranges, signs, exact zeros, labels and error paths are the same in
    binary64; an equality between two differently computed values, a
    strict inequality or a monotonicity statement is followed by the
    binary64 code only up to rounding in the last place, and the
    statements that depend on it say so.

    Arrays.  A band (one [xarr.sel(band=...)] slice, of any spatial shape)
    is the list of its pixel values in row-major order; an element-wise
    numpy operation is a [map] of the scalar kernel over that list.  The
    scalar kernels live in [Px], under the names of the source functions;
    the array versions carry the same names at top level. *)

From Stdlib Require Import Reals Lra Lia List String Bool Arith.
Import ListNotations.

Open Scope R_scope.

(** ** Float power *)

(** Python's [x ** y] for a positive exponent [y]: [0 ** y] is [0], and a
    positive base gives [exp (y * ln x)].  A negative base with a
    fractional exponent is not a number in numpy; the pipeline never
    raises a negative base to a power whose result it keeps (see
    [adj_nonneg] and the guard of [Px._sRGB]). *)
Definition fpow (x y : R) : R :=
  if Rle_dec x 0 then 0 else Rpower x y.

(** ** Parameters (lines 22-29) *)

Definition maxR : R := 3.0.
Definition midR : R := 0.13.
Definition sat : R := 1.2.
Definition gamma : R := 1.8.
Definition gOff : R := 0.01.
Definition gOffPow : R := fpow gOff gamma.
Definition gOffRange : R := fpow (1 + gOff) gamma - gOffPow.

(** ** Scalar kernels *)

Module Px.

(** [s.clip(min=0, max=1)] on one element. *)
Definition _clip (s : R) : R := Rmin (Rmax s 0) 1.

Definition _adjGamma (b : R) : R :=
  (fpow (b + gOff) gamma - gOffPow) / gOffRange.

(** Numerator and denominator of the rational curve of [_adj]. *)
Definition adj_num (ar tx ty maxC : R) : R :=
  ar * (ar * (tx / maxC + ty - 1) - ty).

Definition adj_den (ar tx maxC : R) : R :=
  ar * (2 * tx / maxC - 1) - tx / maxC.

Definition _adj (a tx ty maxC : R) : R :=
  let ar := _clip (a / maxC) in
  adj_num ar tx ty maxC / adj_den ar tx maxC.

Definition _sAdj (a : R) : R := _adjGamma (_adj a midR 1 maxR).

(** [xr.where(c <= 0.0031308, 12.92 * c, 1.055 * c ** (1 / 2.4) - 0.055)]
    on one element: the condition selects one of the two values. *)
Definition _sRGB (c : R) : R :=
  if Rle_dec c 0.0031308
  then 12.92 * c
  else 1.055 * fpow c (1 / 2.4) - 0.055.

End Px.

(** ** Bands and element-wise array operations *)

Definition Band : Type := list R.

Definition _clip (s : Band) : Band := map Px._clip s.
Definition _adjGamma (b : Band) : Band := map Px._adjGamma b.
Definition _adj (a : Band) (tx ty maxC : R) : Band :=
  map (fun x => Px._adj x tx ty maxC) a.
Definition _sAdj (a : Band) : Band := _adjGamma (_adj a midR 1 maxR).


(** ** Python outcomes *)

(** The exceptions the modelled calls can raise. *)
Inductive PyError : Type :=
| KeyError        (** [sel] on a label the index does not hold *)
| ValueError      (** the [DataArray] constructor on data that does not fit the coordinates *)
| AttributeError. (** attribute access on an object that lacks the attribute *)

Inductive result (A : Type) : Type :=
| Ok (a : A)
| Raise (e : PyError).

Arguments Ok {A} a.
Arguments Raise {A} e.

Definition bind {A B : Type} (m : result A) (k : A -> result B) : result B :=
  match m with
  | Ok a => k a
  | Raise e => Raise e
  end.

Notation "x <- m ;; k" := (bind m (fun x => k))
  (at level 61, m at next level, right associativity).

(** ** numpy *)

Module Np.

Definition sum (a : Band) : R := fold_right Rplus 0 a.

(** [np.mean] over all elements.  On an array without elements numpy
    returns not-a-number; the quotient below has no meaning there, and
    the statements that read a mean ask for at least one pixel. *)
Definition mean (a : Band) : R := sum a / INR (List.length a).

(** [np.stack] along a new leading axis: the list of the stacked bands. *)
Definition stack (bands : list Band) : list Band := bands.

(** Element-wise [a + b] of two bands of one shape. *)
Fixpoint add (a b : Band) : Band :=
  match a, b with
  | x :: a', y :: b' => (x + y) :: add a' b'
  | _, _ => []
  end.

(** Scalar broadcast: [s + a], [a * s] and [a / s]. *)
Definition sadd (s : R) (a : Band) : Band := map (fun v => s + v) a.
Definition muls (a : Band) (s : R) : Band := map (fun v => v * s) a.
Definition divs (a : Band) (s : R) : Band := map (fun v => v / s) a.

End Np.

(** ** xarray *)

Module Xr.

(** A labelled array whose leading dimension is [band]: one slice per
    label of the band coordinate, in positional order, and the scalar
    coordinate [avgS] when the array carries one.  Other coordinates
    play no part in the computation. *)
Record DataArray : Type := mkDataArray {
  slices : list (string * Band);
  avgS_coord : option R
}.

(** What [coords=xarr.coords] hands to the constructor. *)
Record Coords : Type := mkCoords {
  band_labels : list string;
  avgS_label : option R
}.

Definition coords (x : DataArray) : Coords :=
  mkCoords (map fst (slices x)) (avgS_coord x).

(** [x.sel(band=label)]: the slice carrying the label. *)
Definition sel (x : DataArray) (label : string) : result Band :=
  match find (fun p => String.eqb (fst p) label) (slices x) with
  | Some p => Ok (snd p)
  | None => Raise KeyError
  end.

(** [xr.DataArray(data, coords=c, dims=...)]: the labels of [c] are
    attached to the slices of [data] by position; sizes must agree. *)
Definition DataArray_of (data : list Band) (c : Coords) : result DataArray :=
  if Nat.eqb (List.length data) (List.length (band_labels c))
  then Ok (mkDataArray (combine (band_labels c) data) (avgS_label c))
  else Raise ValueError.

(** [x['avgS'] = v]. *)
Definition set_avgS (x : DataArray) (v : R) : DataArray :=
  mkDataArray (slices x) (Some v).

(** An element-wise operation keeps labels and coordinates. *)
Definition map_values (f : R -> R) (x : DataArray) : DataArray :=
  mkDataArray (map (fun p => (fst p, map f (snd p))) (slices x)) (avgS_coord x).

End Xr.

(** ** The average-saturation argument *)

(** The objects a caller can pass as [average_saturation]: a plain Python
    float, or a zero-dimensional [xr.DataArray] (what [avgS] returns,
    [np.mean] of a [DataArray] being a [DataArray]).  Other objects
    (integers, numpy scalars, arrays of higher rank) are not modelled. *)
Inductive Scalar : Type :=
| PyFloat (v : R)
| DataArray0 (v : R).

(** The number an arithmetic expression reads from the object. *)
Definition scalar_val (s : Scalar) : R :=
  match s with
  | PyFloat v => v
  | DataArray0 v => v
  end.

(** [s.values]: a float has no such attribute. *)
Definition values (s : Scalar) : result R :=
  match s with
  | DataArray0 v => Ok v
  | PyFloat _ => Raise AttributeError
  end.

(** ** Saturation enhancement, sRGB and the entry point *)

Definition _satEnh (r g b : Band) (avgS : R) : list Band :=
  Np.stack [ _clip (Np.sadd avgS (Np.muls r sat));
             _clip (Np.sadd avgS (Np.muls g sat));
             _clip (Np.sadd avgS (Np.muls b sat)) ].

Definition _sRGB (c : Xr.DataArray) : Xr.DataArray :=
  Xr.map_values Px._sRGB c.

Definition avgS (r g b : Band) : Scalar :=
  DataArray0
    (Np.mean (Np.muls (Np.divs (Np.add (Np.add r g) b) 3.0) (1 - sat))).

Definition enhanceImage (xarr : Xr.DataArray)
    (average_saturation : option Scalar) : result Xr.DataArray :=
  r0 <- Xr.sel xarr "red"%string ;;
  let r := _sAdj r0 in
  g0 <- Xr.sel xarr "green"%string ;;
  let g := _sAdj g0 in
  b0 <- Xr.sel xarr "blue"%string ;;
  let b := _sAdj b0 in
  let average_saturation :=
    match average_saturation with
    | None => avgS r g b
    | Some s => s
    end in
  let rgbLin := _satEnh r g b (scalar_val average_saturation) in
  rgbLin_xr <- Xr.DataArray_of rgbLin (Xr.coords xarr) ;;
  v <- values average_saturation ;;
  Ok (_sRGB (Xr.set_avgS rgbLin_xr v)).

(** ** Input conditions *)

(** A valid image: exactly three bands, labelled red, green and blue in
    some positional order, all of one shape. *)
Definition valid_image (x : Xr.DataArray) : Prop :=
  List.length (Xr.slices x) = 3%nat /\
  In "red"%string (Xr.band_labels (Xr.coords x)) /\
  In "green"%string (Xr.band_labels (Xr.coords x)) /\
  In "blue"%string (Xr.band_labels (Xr.coords x)) /\
  exists n, Forall (fun p => List.length (snd p) = n) (Xr.slices x).

(** Every pixel of every band lies in [[0,1]]. *)
Definition unit_range (x : Xr.DataArray) : Prop :=
  Forall (fun p => Forall (fun v => 0 <= v <= 1) (snd p)) (Xr.slices x).

(** ** The formulas of the specification *)

(** One output band of the saturation stage:
    [band_out = clip(avgS + band_in * sat, 0, 1)]. *)
Definition spec_satEnh_band (avg : R) (band_in : Band) : Band :=
  map (fun x => Px._clip (avg + x * sat)) band_in.

(** [mean((r + g + b)/3 * (1 - sat))] over all pixels, pixel by pixel. *)
Definition spec_avgS (r g b : Band) : R :=
  let n := List.length r in
  Np.sum (map (fun i => (nth i r 0 + nth i g 0 + nth i b 0) / 3 * (1 - sat))
              (seq 0 n))
  / INR n.

(** The piecewise sRGB transfer function. *)
Definition spec_sRGB (c : R) : R :=
  if Rle_dec c 0.0031308
  then 12.92 * c
  else 1.055 * Rpower c (1 / 2.4) - 0.055.

(** What one band of the input becomes under the whole chain, for the
    average saturation [avg]: tone curve, saturation, sRGB. *)
Definition processed (avg : R) (band_in : Band) : Band :=
  map spec_sRGB (spec_satEnh_band avg (_sAdj band_in)).

(** ** The saturation stage as the specification words it *)

(** [clip(x, lo, hi)]: a value below [lo] becomes [lo], a value above
    [hi] becomes [hi], any other value is kept. *)
Definition spec_clip (x lo hi : R) : R :=
  if Rlt_dec x lo then lo else if Rlt_dec hi x then hi else x.

(** The saturation gain of the specification's data model. *)
Definition spec_sat : R := 1.2.

(** [clip(avgS + band_in * sat, 0, 1)] on one pixel. *)
Definition spec_satEnh_pixel (avg x : R) : R :=
  spec_clip (avg + x * spec_sat) 0 1.

(** The sum of [f 0], ..., [f (n - 1)]. *)
Fixpoint spec_sum_upto (f : nat -> R) (n : nat) : R :=
  match n with
  | O => 0
  | S m => spec_sum_upto f m + f m
  end.

(** [mean((r + g + b)/3 * (1 - sat))] over the pixels of an image with at
    least one pixel: the sum over the pixel positions, divided by their
    number. *)
Definition spec_mean_sat (r g b : Band) : R :=
  spec_sum_upto
    (fun i => (nth i r 0 + nth i g 0 + nth i b 0) / 3 * (1 - spec_sat))
    (List.length r)
  / INR (List.length r).

(** ** Sample images *)

(** The one-pixel image of the end-to-end scenario. *)
Definition img_rgb : Xr.DataArray :=
  Xr.mkDataArray
    [("red"%string, [0.2]); ("green"%string, [0.3]); ("blue"%string, [0.1])]
    None.

(** A one-pixel image whose bands come in the order blue, green, red. *)
Definition img_bgr : Xr.DataArray :=
  Xr.mkDataArray
    [("blue"%string, [1]); ("green"%string, [0]); ("red"%string, [0])]
    None.

(** A one-pixel image without a blue band. *)
Definition img_rg : Xr.DataArray :=
  Xr.mkDataArray [("red"%string, [0.2]); ("green"%string, [0.3])] None.

(** ** Basic facts on the kernels *)

Lemma fpow_pos (x y : R) : 0 < x -> fpow x y = Rpower x y.
Proof.
  intros Hx. unfold fpow. destruct (Rle_dec x 0) as [Hle | _]; [lra | reflexivity].
Qed.

Lemma clip_range (s : R) : 0 <= Px._clip s <= 1.
Proof.
  unfold Px._clip. split.
  - apply Rmin_glb; [apply Rmax_r | lra].
  - apply Rmin_r.
Qed.

Lemma clip_id (s : R) : 0 <= s <= 1 -> Px._clip s = s.
Proof.
  intros [H0 H1]. unfold Px._clip.
  rewrite Rmax_left by lra. apply Rmin_left; lra.
Qed.

Lemma clip_mono (s t : R) : s <= t -> Px._clip s <= Px._clip t.
Proof.
  intros Hst. unfold Px._clip.
  apply Rle_min_compat_r. apply Rle_max_compat_r. exact Hst.
Qed.

(** ** The derived constants *)

Lemma gOffPow_pos : 0 < gOffPow.
Proof.
  unfold gOffPow, gOff, gamma. rewrite fpow_pos by lra.
  unfold Rpower. apply exp_pos.
Qed.

Lemma gOffRange_pos : 0 < gOffRange.
Proof.
  unfold gOffRange, gOffPow, gOff, gamma.
  rewrite !fpow_pos by lra.
  assert (H : Rpower 0.01 1.8 < Rpower (1 + 0.01) 1.8)
    by (apply Rlt_Rpower_l; lra).
  lra.
Qed.

(** ** The rational curve *)

(** A quotient by a negative number, bounded through cross products. *)
Lemma div_neg_bounds (n d lo hi : R) :
  d < 0 -> hi * d <= n -> n <= lo * d -> lo <= n / d <= hi.
Proof.
  intros Hd Hhi Hlo.
  assert (Hq : n = (n / d) * d) by (field; lra).
  remember (n / d) as q eqn:Eq. clear Eq.
  split; nra.
Qed.


Lemma adj_den_neg (ar : R) : 0 <= ar -> Px.adj_den ar midR maxR < 0.
Proof.
  intros H. unfold Px.adj_den, midR, maxR. lra.
Qed.

Lemma adj_curve_range (ar : R) :
  0 <= ar <= 1 ->
  0 <= Px.adj_num ar midR 1 maxR / Px.adj_den ar midR maxR <= 1.
Proof.
  intros [H0 H1].
  apply div_neg_bounds.
  - apply adj_den_neg; exact H0.
  - unfold Px.adj_num, Px.adj_den, midR, maxR. nra.
  - unfold Px.adj_num, Px.adj_den, midR, maxR. nra.
Qed.


Lemma adj_range (a : R) : 0 <= Px._adj a midR 1 maxR <= 1.
Proof. unfold Px._adj. apply adj_curve_range, clip_range. Qed.



(** ** Gamma correction *)

Lemma adjGamma_0 : Px._adjGamma 0 = 0.
Proof.
  unfold Px._adjGamma. rewrite Rplus_0_l. fold gOffPow.
  unfold Rdiv. rewrite Rminus_diag. apply Rmult_0_l.
Qed.

Lemma adjGamma_1 : Px._adjGamma 1 = 1.
Proof.
  unfold Px._adjGamma. fold gOffRange.
  pose proof gOffRange_pos. field. lra.
Qed.

Lemma adjGamma_mono (b1 b2 : R) :
  0 <= b1 -> b1 <= b2 -> Px._adjGamma b1 <= Px._adjGamma b2.
Proof.
  intros H0 H12. unfold Px._adjGamma.
  assert (Hg : 0 < gOff) by (unfold gOff; lra).
  rewrite !fpow_pos by lra.
  assert (Hp : Rpower (b1 + gOff) gamma <= Rpower (b2 + gOff) gamma).
  { apply Rle_Rpower_l; [unfold gamma; lra | lra]. }
  apply Rmult_le_compat_r.
  - left. apply Rinv_0_lt_compat, gOffRange_pos.
  - lra.
Qed.

Lemma adjGamma_pos (b : R) : 0 < b -> 0 < Px._adjGamma b.
Proof.
  intros Hb. unfold Px._adjGamma.
  assert (Hg : 0 < gOff) by (unfold gOff; lra).
  rewrite fpow_pos by lra.
  assert (Hp : gOffPow < Rpower (b + gOff) gamma).
  { unfold gOffPow. rewrite fpow_pos by exact Hg.
    apply Rlt_Rpower_l; [unfold gamma; lra | lra]. }
  apply Rdiv_lt_0_compat; [lra | apply gOffRange_pos].
Qed.


Lemma sAdj_range (a : R) : 0 <= Px._sAdj a <= 1.
Proof.
  unfold Px._sAdj. pose proof (adj_range a) as [H0 H1].
  pose proof (adjGamma_mono 0 _ (Rle_refl 0) H0) as Hlo.
  pose proof (adjGamma_mono _ 1 H0 H1) as Hhi.
  rewrite adjGamma_0 in Hlo. rewrite adjGamma_1 in Hhi.
  split; assumption.
Qed.

Lemma sAdj_0 : Px._sAdj 0 = 0.
Proof.
  unfold Px._sAdj, Px._adj.
  replace (0 / maxR) with 0 by (unfold maxR; lra).
  rewrite clip_id by lra.
  replace (Px.adj_num 0 midR 1 maxR / Px.adj_den 0 midR maxR) with 0.
  - apply adjGamma_0.
  - unfold Px.adj_num, Px.adj_den, midR, maxR. lra.
Qed.

(** ** The sRGB power branch *)

Lemma pow_lt_base (x y : R) (n : nat) :
  0 <= x < y -> x ^ S n < y ^ S n.
Proof.
  intros [H0 Hxy]. induction n as [| n IH].
  - simpl. lra.
  - change (x * x ^ S n < y * y ^ S n).
    apply Rmult_le_0_lt_compat; try assumption.
    apply pow_le; exact H0.
Qed.

(** [c ** (1 / 2.4)] is the twelfth root of [c ^ 5]. *)
Lemma root_pow12 (c : R) : 0 < c -> Rpower c (1 / 2.4) ^ 12 = c ^ 5.
Proof.
  intros Hc.
  rewrite <- Rpower_pow by (unfold Rpower; apply exp_pos).
  rewrite Rpower_mult.
  replace (1 / 2.4 * INR 12) with (INR 5)
    by (rewrite !INR_IZR_INZ; simpl Z.of_nat; lra).
  apply Rpower_pow. exact Hc.
Qed.


Lemma root_ge (c t : R) :
  0 < c -> t ^ 12 <= c ^ 5 -> t <= Rpower c (1 / 2.4).
Proof.
  intros Hc Hle.
  destruct (Rle_lt_dec t (Rpower c (1 / 2.4))) as [H | H]; [exact H | exfalso].
  assert (Hp : 0 < Rpower c (1 / 2.4)) by (unfold Rpower; apply exp_pos).
  assert (Hi : Rpower c (1 / 2.4) ^ 12 < t ^ 12).
  { apply pow_lt_base; lra. }
  rewrite root_pow12 in Hi by exact Hc. lra.
Qed.

(** ** The sRGB encoder *)

Lemma sRGB_low (c : R) : c <= 0.0031308 -> Px._sRGB c = 12.92 * c.
Proof.
  intros H. unfold Px._sRGB.
  destruct (Rle_dec c 0.0031308) as [_ | N]; [reflexivity | contradiction].
Qed.

Lemma sRGB_high (c : R) :
  0.0031308 < c -> Px._sRGB c = 1.055 * Rpower c (1 / 2.4) - 0.055.
Proof.
  intros H. unfold Px._sRGB.
  destruct (Rle_dec c 0.0031308) as [L | _]; [lra |].
  rewrite fpow_pos by lra. reflexivity.
Qed.

Lemma root_le_1 (c : R) : 0 < c <= 1 -> Rpower c (1 / 2.4) <= 1.
Proof.
  intros [H0 H1].
  assert (H : Rpower c (1 / 2.4) <= Rpower 1 (1 / 2.4))
    by (apply Rle_Rpower_l; lra).
  unfold Rpower at 2 in H. rewrite ln_1, Rmult_0_r, exp_0 in H. exact H.
Qed.

Lemma sRGB_range (c : R) : 0 <= c <= 1 -> 0 <= Px._sRGB c <= 1.
Proof.
  intros [H0 H1].
  destruct (Rle_lt_dec c 0.0031308) as [L | G].
  - rewrite sRGB_low by exact L. lra.
  - rewrite sRGB_high by exact G.
    pose proof (root_le_1 c ltac:(lra)) as Hu.
    assert (Hl : 11 / 211 <= Rpower c (1 / 2.4)).
    { apply root_ge; [lra |].
      apply Rle_trans with (0.0031308 ^ 5); [lra |].
      apply pow_incr. lra. }
    lra.
Qed.

Lemma sRGB_pos (c : R) : 0 < c -> 0 < Px._sRGB c.
Proof.
  intros H0.
  destruct (Rle_lt_dec c 0.0031308) as [L | G].
  - rewrite sRGB_low by exact L. lra.
  - rewrite sRGB_high by exact G.
    assert (Hl : 11 / 200 <= Rpower c (1 / 2.4)).
    { apply root_ge; [lra |].
      apply Rle_trans with (0.0031308 ^ 5); [lra |].
      apply pow_incr. lra. }
    lra.
Qed.

Lemma sRGB_mono_low (x1 x2 : R) :
  x1 <= x2 -> x2 <= 0.0031308 -> Px._sRGB x1 <= Px._sRGB x2.
Proof.
  intros H12 H2. rewrite !sRGB_low by lra. lra.
Qed.

Lemma sRGB_mono_high (x1 x2 : R) :
  0.0031308 < x1 -> x1 <= x2 -> Px._sRGB x1 <= Px._sRGB x2.
Proof.
  intros H1 H12. rewrite !sRGB_high by lra.
  assert (H : Rpower x1 (1 / 2.4) <= Rpower x2 (1 / 2.4))
    by (apply Rle_Rpower_l; lra).
  lra.
Qed.


Lemma spec_sRGB_eq (c : R) : Px._sRGB c = spec_sRGB c.
Proof.
  unfold spec_sRGB. destruct (Rle_dec c 0.0031308) as [L | G].
  - apply sRGB_low; exact L.
  - apply sRGB_high; lra.
Qed.

(** ** Bands *)

Lemma sAdj_band (a : Band) : _sAdj a = map Px._sAdj a.
Proof. unfold _sAdj, _adjGamma, _adj. rewrite map_map. reflexivity. Qed.

Lemma sAdj_length (a : Band) : List.length (_sAdj a) = List.length a.
Proof. rewrite sAdj_band. apply length_map. Qed.

Lemma satEnh_band (avg : R) (x : Band) :
  _clip (Np.sadd avg (Np.muls x sat)) = spec_satEnh_band avg x.
Proof.
  unfold _clip, Np.sadd, Np.muls, spec_satEnh_band.
  rewrite !map_map. reflexivity.
Qed.

Lemma satEnh_bands (r g b : Band) (avg : R) :
  _satEnh r g b avg =
  [spec_satEnh_band avg r; spec_satEnh_band avg g; spec_satEnh_band avg b].
Proof. unfold _satEnh, Np.stack. rewrite !satEnh_band. reflexivity. Qed.

(** The zipped form of the mix that [avgS] averages is the pixel-indexed one. *)
Lemma mix_by_index (r g b : Band) :
  List.length g = List.length r -> List.length b = List.length r ->
  Np.muls (Np.divs (Np.add (Np.add r g) b) 3.0) (1 - sat) =
  map (fun i => (nth i r 0 + nth i g 0 + nth i b 0) / 3 * (1 - sat))
      (seq 0 (List.length r)).
Proof.
  unfold Np.muls, Np.divs. rewrite map_map.
  revert g b. induction r as [| x r IH]; intros g b Hg Hb.
  - reflexivity.
  - destruct g as [| y g]; [discriminate |].
    destruct b as [| z b]; [discriminate |].
    simpl in Hg, Hb. injection Hg as Hg. injection Hb as Hb.
    specialize (IH g b Hg Hb).
    change (seq 0 (List.length (x :: r))) with (0%nat :: seq 1 (List.length r)).
    rewrite <- seq_shift. cbn [Np.add]. rewrite !map_cons, map_map.
    cbn [nth]. f_equal.
    + lra.
    + exact IH.
Qed.

Lemma avgS_spec (r g b : Band) :
  List.length g = List.length r -> List.length b = List.length r ->
  scalar_val (avgS r g b) = spec_avgS r g b.
Proof.
  intros Hg Hb. unfold avgS, spec_avgS, Np.mean. cbn [scalar_val].
  rewrite (mix_by_index r g b Hg Hb).
  rewrite length_map, length_seq. reflexivity.
Qed.

(** ** Selection by label *)

Lemma sel_present (x : Xr.DataArray) (label : string) :
  In label (Xr.band_labels (Xr.coords x)) ->
  exists band, Xr.sel x label = Ok band /\ In (label, band) (Xr.slices x).
Proof.
  unfold Xr.sel, Xr.coords. cbn [Xr.band_labels].
  induction (Xr.slices x) as [| [l d] rest IH]; intros Hin.
  - contradiction.
  - cbn [find fst]. destruct (String.eqb l label) eqn:E.
    + apply String.eqb_eq in E. subst l.
      exists d. split; [reflexivity | left; reflexivity].
    + destruct Hin as [Hl | Hin].
      * cbn in Hl. subst l. rewrite String.eqb_refl in E. discriminate.
      * destruct (IH Hin) as [band [Hs Hi]].
        exists band. split; [exact Hs | right; exact Hi].
Qed.

Lemma sel_absent (x : Xr.DataArray) (label : string) :
  ~ In label (Xr.band_labels (Xr.coords x)) -> Xr.sel x label = Raise KeyError.
Proof.
  unfold Xr.sel, Xr.coords. cbn [Xr.band_labels].
  induction (Xr.slices x) as [| [l d] rest IH]; intros Hn.
  - reflexivity.
  - cbn [find fst]. destruct (String.eqb l label) eqn:E.
    + apply String.eqb_eq in E. subst l. exfalso. apply Hn. left. reflexivity.
    + apply IH. intros Hin. apply Hn. right. exact Hin.
Qed.

Lemma sel_ok_in (x : Xr.DataArray) (label : string) (band : Band) :
  Xr.sel x label = Ok band -> In (label, band) (Xr.slices x).
Proof.
  unfold Xr.sel. intros H.
  destruct (find _ _) as [[l d] |] eqn:F; [| discriminate].
  injection H as <-.
  apply find_some in F. destruct F as [Hin E].
  cbn [fst] in E. apply String.eqb_eq in E. subst l. exact Hin.
Qed.

(** ** The entry point, unfolded *)

Lemma values_scalar_val (s : Scalar) (v : R) :
  values s = Ok v -> scalar_val s = v.
Proof. destruct s; cbn; intros H; [discriminate | injection H as H; exact H]. Qed.

Lemma sRGB_bands (l : list string) (c : option R) (avg v : R) (r g b : Band) :
  List.length l = 3%nat ->
  _sRGB (Xr.set_avgS
           (Xr.mkDataArray (combine l (_satEnh (_sAdj r) (_sAdj g) (_sAdj b) avg)) c) v) =
  Xr.mkDataArray (combine l [processed avg r; processed avg g; processed avg b])
                 (Some v).
Proof.
  intros Hl. destruct l as [| l1 [| l2 [| l3 [| l4 l]]]]; try discriminate.
  unfold _sRGB, Xr.map_values, Xr.set_avgS, processed.
  rewrite satEnh_bands. cbn [Xr.slices Xr.avgS_coord combine map fst snd].
  rewrite !(map_ext _ _ spec_sRGB_eq). reflexivity.
Qed.

Lemma sRGB_slices (lin : Xr.DataArray) :
  Xr.slices (_sRGB lin) =
  map (fun p => (fst p, map spec_sRGB (snd p))) (Xr.slices lin).
Proof.
  unfold _sRGB, Xr.map_values. cbn [Xr.slices].
  apply map_ext. intros p. f_equal. apply map_ext, spec_sRGB_eq.
Qed.

(** With the three bands found and exactly three labels, the call returns
    the labelled, encoded stack as soon as [.values] answers. *)
Lemma enhanceImage_value (xarr : Xr.DataArray) (a : option Scalar)
    (r0 g0 b0 : Band) (v : R) :
  List.length (Xr.slices xarr) = 3%nat ->
  Xr.sel xarr "red" = Ok r0 ->
  Xr.sel xarr "green" = Ok g0 ->
  Xr.sel xarr "blue" = Ok b0 ->
  values (match a with
          | None => avgS (_sAdj r0) (_sAdj g0) (_sAdj b0)
          | Some s => s
          end) = Ok v ->
  enhanceImage xarr a =
  Ok (Xr.mkDataArray
        (combine (Xr.band_labels (Xr.coords xarr))
                 [processed v r0; processed v g0; processed v b0])
        (Some v)).
Proof.
  intros Hlen Hr Hg Hb Hv. unfold enhanceImage.
  rewrite Hr, Hg, Hb. cbn [bind].
  rewrite (values_scalar_val _ _ Hv).
  unfold Xr.DataArray_of, Xr.coords. cbn [Xr.band_labels Xr.avgS_label].
  rewrite length_map, Hlen. cbn [_satEnh Np.stack List.length Nat.eqb bind].
  rewrite Hv. cbn [bind]. f_equal.
  apply sRGB_bands. rewrite length_map. exact Hlen.
Qed.

(** Conversely, a returned array is that one. *)
Lemma enhanceImage_inv (xarr : Xr.DataArray) (a : option Scalar)
    (out : Xr.DataArray) :
  enhanceImage xarr a = Ok out ->
  exists r0 g0 b0 v,
    List.length (Xr.slices xarr) = 3%nat /\
    Xr.sel xarr "red" = Ok r0 /\
    Xr.sel xarr "green" = Ok g0 /\
    Xr.sel xarr "blue" = Ok b0 /\
    values (match a with
            | None => avgS (_sAdj r0) (_sAdj g0) (_sAdj b0)
            | Some s => s
            end) = Ok v /\
    out = Xr.mkDataArray
            (combine (Xr.band_labels (Xr.coords xarr))
                     [processed v r0; processed v g0; processed v b0])
            (Some v).
Proof.
  intros H.
  destruct (Xr.sel xarr "red") as [r0 | e] eqn:Hr;
    [| unfold enhanceImage in H; rewrite Hr in H; discriminate].
  destruct (Xr.sel xarr "green") as [g0 | e] eqn:Hg;
    [| unfold enhanceImage in H; rewrite Hr, Hg in H; discriminate].
  destruct (Xr.sel xarr "blue") as [b0 | e] eqn:Hb;
    [| unfold enhanceImage in H; rewrite Hr, Hg, Hb in H; discriminate].
  destruct (Nat.eqb 3 (List.length (Xr.slices xarr))) eqn:Hlen.
  - apply Nat.eqb_eq in Hlen. symmetry in Hlen.
    destruct (values (match a with
                      | None => avgS (_sAdj r0) (_sAdj g0) (_sAdj b0)
                      | Some s => s
                      end)) as [v | e] eqn:Hv.
    + exists r0, g0, b0, v. repeat split; try assumption.
      rewrite (enhanceImage_value xarr a r0 g0 b0 v Hlen Hr Hg Hb Hv) in H.
      injection H as H. symmetry. exact H.
    + exfalso. unfold enhanceImage in H. rewrite Hr, Hg, Hb in H.
      cbn [bind] in H.
      unfold Xr.DataArray_of, Xr.coords in H.
      cbn [Xr.band_labels Xr.avgS_label _satEnh Np.stack List.length] in H.
      rewrite length_map, Hlen in H. cbn [Nat.eqb bind] in H.
      rewrite Hv in H. discriminate.
  - exfalso. unfold enhanceImage in H. rewrite Hr, Hg, Hb in H.
    cbn [bind] in H.
    unfold Xr.DataArray_of, Xr.coords in H.
    cbn [Xr.band_labels Xr.avgS_label _satEnh Np.stack List.length] in H.
    rewrite length_map, Hlen in H. discriminate.
Qed.

Lemma valid_image_sel (xarr : Xr.DataArray) :
  valid_image xarr ->
  exists r0 g0 b0,
    Xr.sel xarr "red" = Ok r0 /\ Xr.sel xarr "green" = Ok g0 /\
    Xr.sel xarr "blue" = Ok b0 /\
    List.length g0 = List.length r0 /\ List.length b0 = List.length r0.
Proof.
  intros (Hlen & Hr & Hg & Hb & n & Hn).
  destruct (sel_present _ _ Hr) as (r0 & Sr & Ir).
  destruct (sel_present _ _ Hg) as (g0 & Sg & Ig).
  destruct (sel_present _ _ Hb) as (b0 & Sb & Ib).
  exists r0, g0, b0. rewrite Forall_forall in Hn.
  apply Hn in Ir, Ig, Ib. cbn in Ir, Ig, Ib.
  repeat split; try assumption; congruence.
Qed.

(** ** Properties of the tone-curve stage *)

(** C1, as amended: on a band of zeros the tone-curve stage returns at
    every element the constant [(gOff**gamma - gOffPow)/gOffRange], and
    this constant is 0: the offset [gOffPow] subtracted after the power
    cancels the lift, so black stays black. *)
Theorem sAdj_zero_band (band : Band) :
  Forall (fun a => a = 0) band ->
  List.length (_sAdj band) = List.length band /\
  Forall (fun v => v = (fpow gOff gamma - gOffPow) / gOffRange) (_sAdj band) /\
  (fpow gOff gamma - gOffPow) / gOffRange = 0.
Proof.
  intros Hz.
  assert (HK : (fpow gOff gamma - gOffPow) / gOffRange = 0).
  { fold gOffPow. unfold Rdiv. rewrite Rminus_diag. apply Rmult_0_l. }
  split; [apply sAdj_length | split; [| exact HK]].
  rewrite sAdj_band. apply Forall_map.
  apply Forall_impl with (2 := Hz).
  intros a Ha. cbv beta. rewrite Ha, HK. apply sAdj_0.
Qed.

Lemma sAdj_zero_band_witness :
  Forall (fun a => a = 0) [0; 0] /\
  List.length (_sAdj [0; 0]) = 2%nat /\
  Forall (fun v => v = (fpow gOff gamma - gOffPow) / gOffRange) (_sAdj [0; 0]) /\
  (fpow gOff gamma - gOffPow) / gOffRange = 0.
Proof.
  assert (Hz : Forall (fun a => a = 0) [0; 0]) by (repeat constructor).
  split; [exact Hz | exact (sAdj_zero_band [0; 0] Hz)].
Defined.

(** C1, as stated, fails on the one-pixel black band: the constant is
    reached, but it is not strictly positive. *)
Lemma sAdj_zero_band_not_lifted :
  ~ (Forall (fun v => v = (fpow gOff gamma - gOffPow) / gOffRange) (_sAdj [0]) /\
     0 < (fpow gOff gamma - gOffPow) / gOffRange).
Proof.
  intros [_ Hpos].
  fold gOffPow in Hpos. unfold Rdiv in Hpos.
  rewrite Rminus_diag, Rmult_0_l in Hpos. lra.
Qed.

(** Whatever the input, [_adj] evaluates the denominator inside [[0,1]],
    where it is negative. *)
Lemma adj_division_defined (a : R) :
  Px.adj_den (Px._clip (a / maxR)) midR maxR < 0.
Proof. apply adj_den_neg, clip_range. Qed.

(** C4: with [tx = midR = 0.13], [ty = 1] and [maxC = maxR = 3.0] the
    denominator [ar * (2*tx/maxC - 1) - tx/maxC] of the rational curve of
    [_adj] is nonzero for every [ar] in [[0,1]]. *)
Theorem adj_den_nonzero (ar : R) :
  0 <= ar <= 1 ->
  ar * (2 * midR / maxR - 1) - midR / maxR <> 0 /\
  Px.adj_den ar midR maxR <> 0.
Proof.
  intros [H0 H1].
  pose proof (adj_den_neg ar H0) as Hn.
  split; [change (Px.adj_den ar midR maxR <> 0) |]; lra.
Qed.

Lemma adj_den_nonzero_witness :
  0 <= 0.5 <= 1 /\
  0.5 * (2 * midR / maxR - 1) - midR / maxR <> 0 /\
  Px.adj_den 0.5 midR maxR <> 0.
Proof.
  assert (H : 0 <= 0.5 <= 1) by lra.
  split; [exact H | exact (adj_den_nonzero 0.5 H)].
Defined.






(** ** Properties of the entry point *)

Lemma processed_range (avg : R) (band_in : Band) :
  Forall (fun v => 0 <= v <= 1) (processed avg band_in).
Proof.
  unfold processed, spec_satEnh_band. rewrite map_map.
  apply Forall_map, Forall_forall. intros x _.
  rewrite <- spec_sRGB_eq. apply sRGB_range, clip_range.
Qed.

Lemma valid_image_returns (xarr : Xr.DataArray) :
  valid_image xarr -> exists out, enhanceImage xarr None = Ok out.
Proof.
  intros Hv. pose proof Hv as (Hlen & _).
  destruct (valid_image_sel xarr Hv) as (r0 & g0 & b0 & Hr & Hg & Hb & _).
  eexists.
  eapply enhanceImage_value; [exact Hlen | exact Hr | exact Hg | exact Hb |].
  reflexivity.
Qed.

(** C2: on an image whose three bands hold values of [[0,1]] only, the
    call returns, and every pixel of any array it returns, with or
    without a supplied average saturation, lies in [[0,1]]. *)
Theorem enhanceImage_unit_range (xarr : Xr.DataArray) :
  valid_image xarr -> unit_range xarr ->
  (exists out, enhanceImage xarr None = Ok out) /\
  (forall a out, enhanceImage xarr a = Ok out -> unit_range out).
Proof.
  intros Hv _. split; [apply valid_image_returns; exact Hv |].
  intros a out H.
  destruct (enhanceImage_inv xarr a out H)
    as (r0 & g0 & b0 & v & _ & _ & _ & _ & _ & ->).
  unfold unit_range. cbn [Xr.slices].
  apply Forall_forall. intros [l d] Hin. cbn [snd].
  apply in_combine_r in Hin.
  destruct Hin as [<- | [<- | [<- | []]]]; apply processed_range.
Qed.

Lemma img_rgb_valid : valid_image img_rgb.
Proof.
  unfold valid_image, img_rgb. cbn.
  repeat split; auto.
  exists 1%nat. repeat constructor.
Qed.

Lemma enhanceImage_unit_range_witness :
  (valid_image img_rgb /\ unit_range img_rgb) /\
  (exists out, enhanceImage img_rgb None = Ok out) /\
  (forall a out, enhanceImage img_rgb a = Ok out -> unit_range out).
Proof.
  assert (Hu : unit_range img_rgb).
  { unfold unit_range, img_rgb. cbn [Xr.slices snd].
    repeat constructor; lra. }
  split; [split; [exact img_rgb_valid | exact Hu] |].
  exact (enhanceImage_unit_range img_rgb img_rgb_valid Hu).
Defined.

Lemma clip_spec (s : R) : Px._clip s = spec_clip s 0 1.
Proof.
  unfold Px._clip, spec_clip.
  destruct (Rlt_dec s 0) as [L | L].
  - rewrite Rmax_right by lra. apply Rmin_left. lra.
  - rewrite Rmax_left by lra.
    destruct (Rlt_dec 1 s) as [G | G].
    + apply Rmin_right. lra.
    + apply Rmin_left. lra.
Qed.

Lemma satEnh_band_spec (avg : R) (x : Band) :
  _clip (Np.sadd avg (Np.muls x sat)) = map (spec_satEnh_pixel avg) x.
Proof.
  unfold _clip, Np.sadd, Np.muls. rewrite !map_map.
  apply map_ext. intros v. apply clip_spec.
Qed.

Lemma sum_app (a b : Band) : Np.sum (a ++ b) = Np.sum a + Np.sum b.
Proof.
  unfold Np.sum. induction a as [| x a IH]; cbn [app fold_right].
  - lra.
  - rewrite IH. lra.
Qed.

Lemma sum_seq_upto (f : nat -> R) (n : nat) :
  Np.sum (map f (seq 0 n)) = spec_sum_upto f n.
Proof.
  induction n as [| n IH].
  - reflexivity.
  - rewrite seq_S, map_app, sum_app, IH.
    cbn [spec_sum_upto map Np.sum fold_right Nat.add]. lra.
Qed.

Lemma avgS_mean_sat (r g b : Band) :
  List.length g = List.length r -> List.length b = List.length r ->
  avgS r g b = DataArray0 (spec_mean_sat r g b).
Proof.
  intros Hg Hb.
  pose proof (avgS_spec r g b Hg Hb) as H.
  unfold avgS in *. cbn [scalar_val] in H. rewrite H.
  unfold spec_avgS, spec_mean_sat. rewrite sum_seq_upto. reflexivity.
Qed.

(** C5: on a valid image with at least one pixel the saturation stage
    returns, for each of the three tone-adjusted bands and pixel by pixel,
    [clip(avgS + band_in * sat, 0, 1)] with one scalar for all three;
    the scalar computed when none is supplied is the mean over all pixels
    of [(r + g + b)/3 * (1 - sat)], and the call without a supplied
    scalar encodes exactly these three bands and attaches that mean. *)
Theorem satEnh_postcondition (xarr : Xr.DataArray) (r0 g0 b0 : Band)
    (n : nat) :
  valid_image xarr ->
  Forall (fun p => List.length (snd p) = S n) (Xr.slices xarr) ->
  Xr.sel xarr "red" = Ok r0 ->
  Xr.sel xarr "green" = Ok g0 ->
  Xr.sel xarr "blue" = Ok b0 ->
  let r := _sAdj r0 in
  let g := _sAdj g0 in
  let b := _sAdj b0 in
  let s := spec_mean_sat r g b in
  (forall avg, _satEnh r g b avg =
               [map (spec_satEnh_pixel avg) r; map (spec_satEnh_pixel avg) g;
                map (spec_satEnh_pixel avg) b]) /\
  avgS r g b = DataArray0 s /\
  enhanceImage xarr None =
  Ok (Xr.mkDataArray
        (combine (Xr.band_labels (Xr.coords xarr))
                 [map (fun x => spec_sRGB (spec_satEnh_pixel s x)) r;
                  map (fun x => spec_sRGB (spec_satEnh_pixel s x)) g;
                  map (fun x => spec_sRGB (spec_satEnh_pixel s x)) b])
        (Some s)).
Proof.
  intros Hv Hshape Hr Hg Hb r g b s.
  pose proof Hv as (Hlen & _).
  rewrite Forall_forall in Hshape.
  pose proof (Hshape _ (sel_ok_in _ _ _ Hr)) as Lr.
  pose proof (Hshape _ (sel_ok_in _ _ _ Hg)) as Lg.
  pose proof (Hshape _ (sel_ok_in _ _ _ Hb)) as Lb.
  cbn [snd] in Lr, Lg, Lb.
  assert (Hs : avgS r g b = DataArray0 s).
  { apply avgS_mean_sat; unfold r, g, b; rewrite !sAdj_length; congruence. }
  assert (Hsat : forall avg, _satEnh r g b avg =
                   [map (spec_satEnh_pixel avg) r;
                    map (spec_satEnh_pixel avg) g;
                    map (spec_satEnh_pixel avg) b]).
  { intros avg. unfold _satEnh, Np.stack.
    rewrite !satEnh_band_spec. reflexivity. }
  split; [exact Hsat | split; [exact Hs |]].
  rewrite (enhanceImage_value xarr None r0 g0 b0 s Hlen Hr Hg Hb).
  - unfold processed. rewrite <- !satEnh_band.
    fold r g b. rewrite !satEnh_band_spec, !map_map. reflexivity.
  - fold r g b. rewrite Hs. reflexivity.
Qed.

Lemma satEnh_postcondition_witness :
  exists out,
    enhanceImage img_rgb None = Ok out /\
    Xr.avgS_coord out =
    Some (spec_mean_sat (_sAdj [0.2]) (_sAdj [0.3]) (_sAdj [0.1])).
Proof.
  assert (Hshape : Forall (fun p => List.length (snd p) = 1%nat)
                          (Xr.slices img_rgb))
    by (repeat constructor).
  destruct (satEnh_postcondition img_rgb [0.2] [0.3] [0.1] 0
              img_rgb_valid Hshape eq_refl eq_refl eq_refl) as (_ & _ & H).
  eexists. split; [exact H | reflexivity].
Defined.

(** C6: every array the call returns is the element-wise image, under
    the piecewise function [12.92 * c] for [c <= 0.0031308] and
    [1.055 * c**(1/2.4) - 0.055] otherwise, of the stacked saturation
    output labelled with the input's coordinates and the average
    saturation; labels and the scalar pass through unchanged. *)
Theorem sRGB_last_stage (xarr : Xr.DataArray) (a : option Scalar)
    (out : Xr.DataArray) :
  enhanceImage xarr a = Ok out ->
  exists r0 g0 b0 v lin0,
    Xr.sel xarr "red" = Ok r0 /\
    Xr.sel xarr "green" = Ok g0 /\
    Xr.sel xarr "blue" = Ok b0 /\
    Xr.DataArray_of (_satEnh (_sAdj r0) (_sAdj g0) (_sAdj b0) v) (Xr.coords xarr)
      = Ok lin0 /\
    let lin := Xr.set_avgS lin0 v in
    out = _sRGB lin /\
    Xr.slices out = map (fun p => (fst p, map spec_sRGB (snd p))) (Xr.slices lin) /\
    Xr.avgS_coord out = Xr.avgS_coord lin.
Proof.
  intros H.
  destruct (enhanceImage_inv xarr a out H)
    as (r0 & g0 & b0 & v & Hlen & Hr & Hg & Hb & Hv & ->).
  assert (Hl : List.length (map fst (Xr.slices xarr)) = 3%nat)
    by (rewrite length_map; exact Hlen).
  exists r0, g0, b0, v.
  unfold Xr.DataArray_of, Xr.coords. cbn [Xr.band_labels Xr.avgS_label].
  rewrite Hl. cbn [_satEnh Np.stack List.length Nat.eqb].
  eexists. repeat split; try eassumption; cbv zeta.
  - symmetry. apply (sRGB_bands _ _ v v r0 g0 b0 Hl).
  - rewrite <- sRGB_slices.
    rewrite (sRGB_bands _ _ v v r0 g0 b0 Hl). reflexivity.
Qed.

Lemma sRGB_last_stage_witness :
  exists out lin,
    enhanceImage img_rgb None = Ok out /\ out = _sRGB lin.
Proof.
  destruct (valid_image_returns img_rgb img_rgb_valid) as [out Hout].
  destruct (sRGB_last_stage img_rgb None out Hout)
    as (r0 & g0 & b0 & v & lin0 & _ & _ & _ & _ & Heq & _).
  exists out, (Xr.set_avgS lin0 v). split; [exact Hout | exact Heq].
Defined.

(** C8: calling without an average saturation gives the same outcome as
    calling with the value that the standalone [avgS] returns on the same
    tone-adjusted bands; on a valid image that outcome is an array. *)
Theorem avgS_reproducible (xarr : Xr.DataArray) (r0 g0 b0 : Band) :
  valid_image xarr ->
  Xr.sel xarr "red" = Ok r0 ->
  Xr.sel xarr "green" = Ok g0 ->
  Xr.sel xarr "blue" = Ok b0 ->
  enhanceImage xarr None =
    enhanceImage xarr (Some (avgS (_sAdj r0) (_sAdj g0) (_sAdj b0))) /\
  exists out, enhanceImage xarr None = Ok out.
Proof.
  intros Hv Hr Hg Hb. split; [| apply valid_image_returns; exact Hv].
  unfold enhanceImage. rewrite Hr, Hg, Hb. reflexivity.
Qed.

Lemma avgS_reproducible_witness :
  enhanceImage img_rgb None =
    enhanceImage img_rgb (Some (avgS (_sAdj [0.2]) (_sAdj [0.3]) (_sAdj [0.1]))) /\
  exists out, enhanceImage img_rgb None = Ok out.
Proof.
  exact (avgS_reproducible img_rgb [0.2] [0.3] [0.1]
           img_rgb_valid eq_refl eq_refl eq_refl).
Defined.

(** C9: when the band coordinate lacks red, green or blue the call
    raises at the selection ([KeyError], the lookup's own error) and
    returns no array; when it holds all three, each selection returns
    its band. *)
Theorem missing_band_raises (xarr : Xr.DataArray) (a : option Scalar) :
  (~ In "red"%string (Xr.band_labels (Xr.coords xarr)) \/
   ~ In "green"%string (Xr.band_labels (Xr.coords xarr)) \/
   ~ In "blue"%string (Xr.band_labels (Xr.coords xarr)) ->
   enhanceImage xarr a = Raise KeyError /\
   forall out, enhanceImage xarr a <> Ok out) /\
  (In "red"%string (Xr.band_labels (Xr.coords xarr)) ->
   In "green"%string (Xr.band_labels (Xr.coords xarr)) ->
   In "blue"%string (Xr.band_labels (Xr.coords xarr)) ->
   exists r0 g0 b0,
     Xr.sel xarr "red" = Ok r0 /\ Xr.sel xarr "green" = Ok g0 /\
     Xr.sel xarr "blue" = Ok b0).
Proof.
  split.
  - intros Hmiss.
    assert (E : enhanceImage xarr a = Raise KeyError).
    { unfold enhanceImage.
      destruct (Xr.sel xarr "red") as [r0 | e] eqn:Hr.
      - destruct (Xr.sel xarr "green") as [g0 | e] eqn:Hg.
        + destruct (Xr.sel xarr "blue") as [b0 | e] eqn:Hb.
          * exfalso. destruct Hmiss as [N | [N | N]];
              apply sel_absent in N; congruence.
          * cbn [bind]. unfold Xr.sel in Hb.
            destruct (find _ _); [discriminate | congruence].
        + cbn [bind]. unfold Xr.sel in Hg.
          destruct (find _ _); [discriminate | congruence].
      - cbn [bind]. unfold Xr.sel in Hr.
        destruct (find _ _); [discriminate | congruence]. }
    split; [exact E | intros out; rewrite E; discriminate].
  - intros Hr Hg Hb.
    destruct (sel_present _ _ Hr) as (r0 & Sr & _).
    destruct (sel_present _ _ Hg) as (g0 & Sg & _).
    destruct (sel_present _ _ Hb) as (b0 & Sb & _).
    exists r0, g0, b0. repeat split; assumption.
Qed.

Lemma missing_band_raises_witness :
  enhanceImage img_rg None = Raise KeyError /\
  exists r0 g0 b0,
    Xr.sel img_rgb "red" = Ok r0 /\ Xr.sel img_rgb "green" = Ok g0 /\
    Xr.sel img_rgb "blue" = Ok b0.
Proof.
  split.
  - apply (proj1 (missing_band_raises img_rg None)).
    right. right. cbn. intros [H | [H | []]]; discriminate H.
  - apply (proj2 (missing_band_raises img_rgb None)); cbn; auto.
Defined.

(** C10, as amended: on a valid image, a supplied average saturation
    given as a zero-dimensional [DataArray] [v] makes the call return;
    the saturation stage uses [v], the attached field holds [v], and
    nothing of the result depends on the value [avgS] would compute. *)
Theorem supplied_avgS_used (xarr : Xr.DataArray) (v : R) (r0 g0 b0 : Band) :
  valid_image xarr ->
  Xr.sel xarr "red" = Ok r0 ->
  Xr.sel xarr "green" = Ok g0 ->
  Xr.sel xarr "blue" = Ok b0 ->
  enhanceImage xarr (Some (DataArray0 v)) =
  Ok (_sRGB (Xr.mkDataArray
               (combine (Xr.band_labels (Xr.coords xarr))
                        (_satEnh (_sAdj r0) (_sAdj g0) (_sAdj b0) v))
               (Some v))).
Proof.
  intros (Hlen & _) Hr Hg Hb.
  rewrite (enhanceImage_value xarr (Some (DataArray0 v)) r0 g0 b0 v
             Hlen Hr Hg Hb eq_refl).
  f_equal. symmetry.
  apply (sRGB_bands _ (Some v) v v r0 g0 b0).
  unfold Xr.coords. cbn [Xr.band_labels]. rewrite length_map. exact Hlen.
Qed.

Lemma supplied_avgS_used_witness :
  enhanceImage img_rgb (Some (DataArray0 0.5)) =
  Ok (_sRGB (Xr.mkDataArray
               (combine ["red"%string; "green"%string; "blue"%string]
                        (_satEnh (_sAdj [0.2]) (_sAdj [0.3]) (_sAdj [0.1]) 0.5))
               (Some 0.5))).
Proof.
  exact (supplied_avgS_used img_rgb 0.5 [0.2] [0.3] [0.1]
           img_rgb_valid eq_refl eq_refl eq_refl).
Defined.

(** C10, as stated, fails when the average saturation is a plain float:
    the bands are found and the saturation stage runs, but reading
    [.values] off the float raises and no array is returned. *)
Lemma plain_float_raises :
  valid_image img_rgb /\
  enhanceImage img_rgb (Some (PyFloat 0.5)) = Raise AttributeError.
Proof.
  split; [exact img_rgb_valid | reflexivity].
Qed.

(** ** Band labels of the result *)

Lemma clip_pos (s : R) : 0 < s -> 0 < Px._clip s.
Proof.
  intros H. unfold Px._clip.
  apply Rmin_glb_lt; [| lra].
  apply Rlt_le_trans with s; [exact H | apply Rmax_l].
Qed.

Lemma clip_neg (s : R) : s <= 0 -> Px._clip s = 0.
Proof.
  intros H. unfold Px._clip.
  rewrite Rmax_right by exact H. apply Rmin_left. lra.
Qed.

Lemma adj_pos (a : R) : 0 < a -> 0 < Px._adj a midR 1 maxR.
Proof.
  intros Ha. unfold Px._adj.
  assert (Hc : 0 < Px._clip (a / maxR)).
  { apply clip_pos. unfold maxR. lra. }
  pose proof (clip_range (a / maxR)) as [_ Hc1].
  remember (Px._clip (a / maxR)) as ar eqn:E. clear E.
  assert (Hd : Px.adj_den ar midR maxR < 0) by (apply adj_den_neg; lra).
  assert (Hn : Px.adj_num ar midR 1 maxR < 0).
  { unfold Px.adj_num, midR, maxR. nra. }
  assert (Hi : / Px.adj_den ar midR maxR < 0) by (apply Rinv_neg; exact Hd).
  unfold Rdiv. nra.
Qed.

Lemma sAdj_pos (a : R) : 0 < a -> 0 < Px._sAdj a.
Proof. intros Ha. apply adjGamma_pos, adj_pos, Ha. Qed.

(** When the bands come in the order red, green, blue, every label of
    the result names the band processed from the input band so labelled. *)
Lemma rgb_order_labels (r0 g0 b0 : Band) (c : option R)
    (a : option Scalar) (v : R) :
  let xarr := Xr.mkDataArray
                [("red"%string, r0); ("green"%string, g0); ("blue"%string, b0)] c in
  values (match a with
          | None => avgS (_sAdj r0) (_sAdj g0) (_sAdj b0)
          | Some s => s
          end) = Ok v ->
  exists out,
    enhanceImage xarr a = Ok out /\
    Xr.sel out "red" = Ok (processed v r0) /\
    Xr.sel out "green" = Ok (processed v g0) /\
    Xr.sel out "blue" = Ok (processed v b0).
Proof.
  intros xarr Hv. eexists. split.
  - apply (enhanceImage_value xarr a r0 g0 b0 v); try reflexivity. exact Hv.
  - repeat split.
Qed.

(** C3 fails on [img_bgr], whose bands come in the order blue, green,
    red: selection is by label, but the stack (red, green, blue) is
    labelled with the input's coordinate by position, so the slice of the
    result labelled red holds the processed blue band and the slice
    labelled blue the processed red band, and the two differ. *)
Theorem bgr_order_mislabelled :
  exists out s,
    enhanceImage img_bgr None = Ok out /\
    Xr.avgS_coord out = Some s /\
    Xr.sel img_bgr "red" = Ok [0] /\
    Xr.sel img_bgr "blue" = Ok [1] /\
    Xr.sel out "red" = Ok (processed s [1]) /\
    Xr.sel out "blue" = Ok (processed s [0]) /\
    processed s [1] <> processed s [0].
Proof.
  set (beta := Px._sAdj 1).
  assert (Hbeta : 0 < beta) by (apply sAdj_pos; lra).
  set (s := scalar_val (avgS (_sAdj [0]) (_sAdj [0]) (_sAdj [1]))).
  assert (Hs : s = - (beta / 15)).
  { unfold s, avgS, Np.mean. rewrite !sAdj_band.
    cbn [scalar_val map Np.add Np.divs Np.muls Np.sum fold_right List.length INR].
    rewrite sAdj_0. fold beta. unfold sat. lra. }
  exists (Xr.mkDataArray
            (combine (Xr.band_labels (Xr.coords img_bgr))
                     [processed s [0]; processed s [0]; processed s [1]])
            (Some s)), s.
  split.
  - apply (enhanceImage_value img_bgr None [0] [0] [1] s); reflexivity.
  - repeat split.
    unfold processed, spec_satEnh_band. rewrite !sAdj_band.
    cbn [map]. rewrite sAdj_0. fold beta. intros Heq.
    injection Heq as Heq. rewrite <- !spec_sRGB_eq in Heq.
    assert (H0 : Px._clip (s + 0 * sat) = 0) by (apply clip_neg; lra).
    assert (H1 : 0 < Px._clip (s + beta * sat))
      by (apply clip_pos; unfold sat; lra).
    rewrite H0 in Heq. rewrite (sRGB_low 0) in Heq by lra.
    pose proof (sRGB_pos _ H1). lra.
Qed.

(** ** Further properties of the tone curve *)



Lemma adjGamma_strict (b1 b2 : R) :
  0 <= b1 -> b1 < b2 -> Px._adjGamma b1 < Px._adjGamma b2.
Proof.
  intros H0 H12. unfold Px._adjGamma.
  assert (Hg : 0 < gOff) by (unfold gOff; lra).
  rewrite !fpow_pos by lra.
  assert (Hp : Rpower (b1 + gOff) gamma < Rpower (b2 + gOff) gamma).
  { apply Rlt_Rpower_l; [unfold gamma; lra | lra]. }
  apply Rmult_lt_compat_r.
  - apply Rinv_0_lt_compat, gOffRange_pos.
  - lra.
Qed.

(** X1: the tone-curve stage saturates outside [[0, maxR]]: every input
    at or below 0 is mapped to 0, and every input at or above [maxR] to
    the value the stage takes at [maxR] itself, which in exact arithmetic
    is 1. *)
Theorem sAdj_saturates (a : R) :
  (a <= 0 -> Px._sAdj a = 0) /\
  (maxR <= a -> Px._sAdj a = Px._sAdj maxR /\ Px._sAdj maxR = 1).
Proof.
  assert (Hc : forall x, maxR <= x -> Px._clip (x / maxR) = 1).
  { intros x Hx. unfold Px._clip. unfold maxR in *.
    rewrite Rmax_left by lra. apply Rmin_right. lra. }
  split; intros Ha.
  - unfold Px._sAdj, Px._adj.
    rewrite clip_neg by (unfold maxR; lra).
    replace (Px.adj_num 0 midR 1 maxR / Px.adj_den 0 midR maxR) with 0
      by (unfold Px.adj_num, Px.adj_den, midR, maxR; lra).
    apply adjGamma_0.
  - split.
    + unfold Px._sAdj, Px._adj.
      rewrite (Hc a Ha), (Hc maxR (Rle_refl _)). reflexivity.
    + unfold Px._sAdj, Px._adj. rewrite (Hc maxR (Rle_refl _)).
      replace (Px.adj_num 1 midR 1 maxR / Px.adj_den 1 midR maxR) with 1
        by (unfold Px.adj_num, Px.adj_den, midR, maxR; lra).
      apply adjGamma_1.
Qed.

Lemma sAdj_saturates_witness :
  (-1 <= 0 /\ Px._sAdj (-1) = 0) /\
  (maxR <= 4 /\ Px._sAdj 4 = Px._sAdj maxR /\ Px._sAdj maxR = 1).
Proof.
  assert (H1 : -1 <= 0) by lra.
  assert (H2 : maxR <= 4) by (unfold maxR; lra).
  split; split; try assumption.
  - exact (proj1 (sAdj_saturates (-1)) H1).
  - exact (proj2 (sAdj_saturates 4) H2).
Defined.





(** X4: for positive [tx] and [maxC], the denominator of the rational
    curve stays away from zero on the whole clipped range [[0,1]] exactly
    when [tx < maxC]; with [tx >= maxC] some [ar] of [[0,1]] makes the
    division a division by zero. *)
Theorem adj_den_safe_iff (tx maxC : R) :
  0 < tx -> 0 < maxC ->
  ((forall ar, 0 <= ar <= 1 -> Px.adj_den ar tx maxC <> 0) <-> tx < maxC).
Proof.
  intros Ht Hm.
  assert (Hk : 0 < tx / maxC) by (apply Rdiv_lt_0_compat; assumption).
  assert (Hkm : tx = tx / maxC * maxC) by (field; lra).
  remember (tx / maxC) as k eqn:Ek.
  assert (Hden : forall ar, Px.adj_den ar tx maxC = ar * (2 * k - 1) - k).
  { intros ar. unfold Px.adj_den. subst k. field. lra. }
  split.
  - intros Hsafe.
    destruct (Rlt_le_dec tx maxC) as [Hlt | Hge]; [exact Hlt | exfalso].
    assert (Hk1 : 1 <= k) by nra.
    apply (Hsafe (k / (2 * k - 1))).
    + split.
      * left. apply Rdiv_lt_0_compat; lra.
      * apply Rmult_le_reg_r with (2 * k - 1); [lra |].
        unfold Rdiv. rewrite Rmult_assoc, Rinv_l by lra. lra.
    + rewrite Hden. field. lra.
  - intros Hlt ar [H0 H1].
    assert (Hk1 : k < 1) by nra.
    rewrite Hden. nra.
Qed.

Lemma adj_den_safe_iff_witness :
  (0 < midR /\ 0 < maxR) /\
  ((forall ar, 0 <= ar <= 1 -> Px.adj_den ar midR maxR <> 0) <-> midR < maxR).
Proof.
  assert (Ht : 0 < midR) by (unfold midR; lra).
  assert (Hm : 0 < maxR) by (unfold maxR; lra).
  split; [auto | exact (adj_den_safe_iff midR maxR Ht Hm)].
Defined.

(** ** Further properties of the sRGB encoder *)

(** X5: the sRGB encoder is non-decreasing up to the small step at its
    breakpoint: for all [x1 <= x2], [_sRGB x1 <= _sRGB x2 + 3e-8]. *)
Theorem sRGB_almost_monotone (x1 x2 : R) :
  x1 <= x2 -> Px._sRGB x1 <= Px._sRGB x2 + 0.00000003.
Proof.
  intros H12.
  destruct (Rle_lt_dec x2 0.0031308) as [L2 | G2].
  - pose proof (sRGB_mono_low x1 x2 H12 L2). lra.
  - destruct (Rle_lt_dec x1 0.0031308) as [L1 | G1].
    + rewrite (sRGB_low x1) by exact L1.
      rewrite (sRGB_high x2) by exact G2.
      assert (Hr : 0.090473845 <= Rpower x2 (1 / 2.4)).
      { apply root_ge; [lra |].
        apply Rle_trans with (0.0031308 ^ 5); [lra |].
        apply pow_incr. lra. }
      lra.
    + pose proof (sRGB_mono_high x1 x2 G1 H12). lra.
Qed.

Lemma sRGB_almost_monotone_witness :
  0.0031308 <= 0.003130801 /\
  Px._sRGB 0.0031308 <= Px._sRGB 0.003130801 + 0.00000003.
Proof.
  assert (H : 0.0031308 <= 0.003130801) by lra.
  split; [exact H | exact (sRGB_almost_monotone _ _ H)].
Defined.

(** X6: on [[0,1]] the encoder returns 0 exactly for the input 0, and a
    value below 1 for every input below 1. *)
Theorem sRGB_end_values (c : R) :
  0 <= c <= 1 ->
  (Px._sRGB c = 0 <-> c = 0) /\ (c < 1 -> Px._sRGB c < 1).
Proof.
  intros [H0 H1]. split; [split |].
  - intros Hz. destruct (Req_dec c 0) as [E | N]; [exact E | exfalso].
    assert (Hp : 0 < c) by lra.
    pose proof (sRGB_pos c Hp). lra.
  - intros ->. rewrite sRGB_low by lra. lra.
  - intros Hlt1.
    destruct (Rle_lt_dec c 0.0031308) as [L | G].
    + rewrite sRGB_low by exact L. lra.
    + rewrite sRGB_high by exact G.
      assert (Hlt : Rpower c (1 / 2.4) < Rpower 1 (1 / 2.4))
        by (apply Rlt_Rpower_l; lra).
      unfold Rpower at 2 in Hlt.
      rewrite ln_1, Rmult_0_r, exp_0 in Hlt. lra.
Qed.

Lemma sRGB_end_values_witness :
  0 <= 0.5 <= 1 /\ Px._sRGB 0.5 <> 0 /\ Px._sRGB 0.5 < 1.
Proof.
  assert (H : 0 <= 0.5 <= 1) by lra.
  destruct (sRGB_end_values 0.5 H) as [Hz Ho].
  split; [exact H | split].
  - intros E. apply Hz in E. lra.
  - apply Ho. lra.
Defined.

(** ** Further properties of the average saturation *)

Lemma add_nil_r (a : Band) : Np.add a [] = [].
Proof. destruct a; reflexivity. Qed.

Lemma add_comm (a b : Band) : Np.add a b = Np.add b a.
Proof.
  revert b. induction a as [| x a IH]; intros [| y b]; cbn [Np.add];
    try reflexivity.
  f_equal; [lra | apply IH].
Qed.

Lemma add_swap (r g b : Band) :
  Np.add (Np.add r g) b = Np.add (Np.add r b) g.
Proof.
  revert g b. induction r as [| x r IH]; intros g b.
  - reflexivity.
  - destruct g as [| y g], b as [| z b]; cbn [Np.add];
      rewrite ?add_nil_r; try reflexivity.
    f_equal; [lra | apply IH].
Qed.

Lemma sum_bounds (l : Band) (lo hi : R) :
  Forall (fun v => lo <= v <= hi) l ->
  INR (List.length l) * lo <= Np.sum l <= INR (List.length l) * hi.
Proof.
  induction 1 as [| v l Hv _ IH].
  - cbn. lra.
  - change (List.length (v :: l)) with (S (List.length l)).
    rewrite S_INR. cbn [Np.sum fold_right].
    change (fold_right Rplus 0 l) with (Np.sum l). lra.
Qed.

Lemma mean_bounds (l : Band) (lo hi : R) :
  l <> [] -> Forall (fun v => lo <= v <= hi) l -> lo <= Np.mean l <= hi.
Proof.
  intros Hne HF. pose proof (sum_bounds l lo hi HF) as [Hl Hh].
  assert (Hn : 0 < INR (List.length l)).
  { destruct l; [contradiction |]. apply lt_0_INR. cbn. lia. }
  unfold Np.mean. split.
  - apply Rmult_le_reg_r with (INR (List.length l)); [exact Hn |].
    unfold Rdiv. rewrite Rmult_assoc, Rinv_l by lra. lra.
  - apply Rmult_le_reg_r with (INR (List.length l)); [exact Hn |].
    unfold Rdiv. rewrite Rmult_assoc, Rinv_l by lra. lra.
Qed.

Lemma mix_bounds (r g b : Band) :
  Forall (fun v => 0 <= v <= 1) r ->
  Forall (fun v => 0 <= v <= 1) g ->
  Forall (fun v => 0 <= v <= 1) b ->
  Forall (fun v => -0.2 <= v <= 0)
         (Np.muls (Np.divs (Np.add (Np.add r g) b) 3.0) (1 - sat)).
Proof.
  unfold Np.muls, Np.divs. rewrite map_map.
  intros Hr. revert g b. induction Hr as [| x r Hx _ IH]; intros g b Hg Hb.
  - constructor.
  - destruct Hg as [| y g Hy Hg]; [constructor |].
    destruct Hb as [| z b Hz Hb]; [constructor |].
    cbn [Np.add map]. constructor.
    + unfold sat. lra.
    + apply IH; assumption.
Qed.

Lemma sAdj_band_range (a : Band) : Forall (fun v => 0 <= v <= 1) (_sAdj a).
Proof.
  rewrite sAdj_band. apply Forall_map, Forall_forall.
  intros x _. apply sAdj_range.
Qed.

(** X7: the average saturation does not depend on the order in which the
    three bands are passed. *)
Theorem avgS_symmetric (r g b : Band) :
  avgS r g b = avgS g r b /\ avgS r g b = avgS r b g.
Proof.
  unfold avgS. split.
  - rewrite (add_comm r g). reflexivity.
  - rewrite (add_swap r g b). reflexivity.
Qed.

(** X8: on an image with at least one pixel, whatever its pixel values,
    the average saturation computed by the call and attached to the
    result lies between [1 - sat = -0.2] and 0. *)
Theorem attached_avgS_range (xarr out : Xr.DataArray) (n : nat) :
  Forall (fun p => List.length (snd p) = S n) (Xr.slices xarr) ->
  enhanceImage xarr None = Ok out ->
  exists s, Xr.avgS_coord out = Some s /\ -0.2 <= s <= 0.
Proof.
  intros Hshape H.
  destruct (enhanceImage_inv xarr None out H)
    as (r0 & g0 & b0 & v & _ & Hr & Hg & Hb & Hv & ->).
  exists v. split; [reflexivity |].
  cbn [values avgS] in Hv. injection Hv as <-.
  rewrite Forall_forall in Hshape.
  apply sel_ok_in, Hshape in Hr, Hg, Hb. cbn [snd] in Hr, Hg, Hb.
  apply mean_bounds.
  - destruct r0 as [| x r0]; [discriminate |].
    destruct g0 as [| y g0]; [discriminate |].
    destruct b0 as [| z b0]; [discriminate |].
    rewrite !sAdj_band. cbn. discriminate.
  - apply mix_bounds; apply sAdj_band_range.
Qed.

Lemma attached_avgS_range_witness :
  exists out s,
    enhanceImage img_rgb None = Ok out /\
    Xr.avgS_coord out = Some s /\ -0.2 <= s <= 0.
Proof.
  destruct (valid_image_returns img_rgb img_rgb_valid) as [out Hout].
  assert (Hshape : Forall (fun p => List.length (snd p) = 1%nat)
                          (Xr.slices img_rgb))
    by (repeat constructor).
  destruct (attached_avgS_range img_rgb out 0 Hshape Hout) as [s [Hs Hr]].
  exists out, s. repeat split; try assumption; apply Hr.
Defined.

(** ** Further properties of the saturation stage *)

Lemma sum_muls (l : Band) (c : R) : Np.sum (Np.muls l c) = Np.sum l * c.
Proof.
  unfold Np.muls, Np.sum. induction l as [| x l IH]; cbn [map fold_right].
  - lra.
  - rewrite IH. lra.
Qed.

(** The per-pixel band average of the shifted and scaled bands. *)
Lemma sum_shifted (r g b : Band) (s : R) :
  List.length g = List.length r -> List.length b = List.length r ->
  Np.sum (Np.divs (Np.add (Np.add (map (fun x => s + x * sat) r)
                                  (map (fun x => s + x * sat) g))
                          (map (fun x => s + x * sat) b)) 3.0) =
  INR (List.length r) * s +
  sat * Np.sum (Np.divs (Np.add (Np.add r g) b) 3.0).
Proof.
  unfold Np.divs, Np.sum.
  revert g b. induction r as [| x r IH]; intros g b Hg Hb.
  - cbn. lra.
  - destruct g as [| y g]; [discriminate |].
    destruct b as [| z b]; [discriminate |].
    cbn [List.length] in Hg, Hb. injection Hg as Hg. injection Hb as Hb.
    change (List.length (x :: r)) with (S (List.length r)). rewrite S_INR.
    cbn [map Np.add fold_right]. rewrite (IH g b Hg Hb). lra.
Qed.

Lemma clip_band_id (l : Band) :
  Forall (fun v => 0 <= v <= 1) l -> _clip l = l.
Proof.
  unfold _clip. induction 1 as [| v l Hv _ IH]; cbn [map].
  - reflexivity.
  - rewrite clip_id by exact Hv. rewrite IH. reflexivity.
Qed.

(** X9: with the average saturation that [avgS] computes on the same
    bands, and as long as no pixel is clipped, the saturation stage keeps
    the mean brightness: the mean of [(r + g + b)/3] over the image is the
    same before and after. *)
Theorem satEnh_keeps_mean (r g b : Band) :
  r <> [] ->
  List.length g = List.length r -> List.length b = List.length r ->
  let s := scalar_val (avgS r g b) in
  Forall (fun x => 0 <= s + x * sat <= 1) (r ++ g ++ b) ->
  exists r' g' b',
    _satEnh r g b s = [r'; g'; b'] /\
    Np.mean (Np.divs (Np.add (Np.add r' g') b') 3.0) =
    Np.mean (Np.divs (Np.add (Np.add r g) b) 3.0).
Proof.
  intros Hne Hg Hb s Hclip.
  apply Forall_app in Hclip as [Cr Hclip].
  apply Forall_app in Hclip as [Cg Cb].
  assert (Hid : forall l, Forall (fun x => 0 <= s + x * sat <= 1) l ->
                 _clip (Np.sadd s (Np.muls l sat)) = map (fun x => s + x * sat) l).
  { intros l Hl. unfold Np.sadd, Np.muls. rewrite map_map.
    apply clip_band_id, Forall_map. exact Hl. }
  exists (map (fun x => s + x * sat) r), (map (fun x => s + x * sat) g),
         (map (fun x => s + x * sat) b).
  split.
  - unfold _satEnh, Np.stack. rewrite !Hid by assumption. reflexivity.
  - assert (Hlen : forall r1 g1 b1 : Band,
              List.length g1 = List.length r1 ->
              List.length b1 = List.length r1 ->
              List.length (Np.divs (Np.add (Np.add r1 g1) b1) 3.0)
              = List.length r1).
    { intros r1. induction r1 as [| x r1 IH]; intros g1 b1 H1 H2.
      - reflexivity.
      - destruct g1 as [| y g1]; [discriminate |].
        destruct b1 as [| z b1]; [discriminate |].
        cbn [List.length] in H1, H2. injection H1 as H1. injection H2 as H2.
        unfold Np.divs in *. cbn [Np.add map List.length].
        rewrite (IH g1 b1 H1 H2). reflexivity. }
    unfold Np.mean.
    rewrite (Hlen _ _ _) by (rewrite !length_map; assumption).
    rewrite (Hlen r g b Hg Hb), length_map.
    rewrite (sum_shifted r g b s Hg Hb).
    assert (Hn : 0 < INR (List.length r)).
    { destruct r; [contradiction |]. apply lt_0_INR. cbn. lia. }
    assert (Hs : INR (List.length r) * s =
                 Np.sum (Np.divs (Np.add (Np.add r g) b) 3.0) * (1 - sat)).
    { unfold s, avgS, Np.mean. cbn [scalar_val].
      rewrite sum_muls.
      unfold Np.muls at 1. rewrite length_map, (Hlen r g b Hg Hb).
      field. lra. }
    rewrite Hs. field. lra.
Qed.

Lemma satEnh_keeps_mean_witness :
  exists r' g' b',
    _satEnh [0.5] [0.5] [0.5] (scalar_val (avgS [0.5] [0.5] [0.5]))
      = [r'; g'; b'] /\
    Np.mean (Np.divs (Np.add (Np.add r' g') b') 3.0) =
    Np.mean (Np.divs (Np.add (Np.add [0.5] [0.5]) [0.5]) 3.0).
Proof.
  apply (satEnh_keeps_mean [0.5] [0.5] [0.5]).
  - discriminate.
  - reflexivity.
  - reflexivity.
  - assert (Hs : scalar_val (avgS [0.5] [0.5] [0.5]) = -0.1).
    { unfold avgS, Np.mean, Np.muls, Np.divs, sat. cbn. lra. }
    rewrite Hs. unfold sat. cbn [app]. repeat constructor; lra.
Defined.

(** ** Further properties of the entry point *)




Lemma combine_three (A : Type) (sl : list (string * Band)) (x y z : A) :
  List.length sl = 3%nat ->
  exists p1 p2 p3,
    sl = [p1; p2; p3] /\
    combine (map fst sl) [x; y; z] = [(fst p1, x); (fst p2, y); (fst p3, z)].
Proof.
  intros H. destruct sl as [| p1 [| p2 [| p3 [| p4 sl]]]]; try discriminate.
  exists p1, p2, p3. split; reflexivity.
Qed.



(** X11: a returned array has the band labels of the input, in the same
    positional order, and bands of the input's size. *)
Theorem enhanceImage_keeps_shape (xarr out : Xr.DataArray)
    (a : option Scalar) (n : nat) :
  Forall (fun p => List.length (snd p) = n) (Xr.slices xarr) ->
  enhanceImage xarr a = Ok out ->
  Xr.band_labels (Xr.coords out) = Xr.band_labels (Xr.coords xarr) /\
  Forall (fun p => List.length (snd p) = n) (Xr.slices out).
Proof.
  intros Hshape H.
  destruct (enhanceImage_inv xarr a out H)
    as (r0 & g0 & b0 & v & Hlen & Hr & Hg & Hb & _ & ->).
  rewrite Forall_forall in Hshape.
  apply sel_ok_in, Hshape in Hr, Hg, Hb. cbn [snd] in Hr, Hg, Hb.
  assert (Hp : forall x, List.length (processed v x) = List.length x).
  { intros x. unfold processed, spec_satEnh_band.
    rewrite !length_map. apply sAdj_length. }
  destruct (combine_three _ (Xr.slices xarr)
              (processed v r0) (processed v g0) (processed v b0) Hlen)
    as (p1 & p2 & p3 & Hsl & Hc).
  unfold Xr.coords. cbn [Xr.band_labels Xr.slices]. rewrite Hsl.
  cbn [map combine fst].
  split; [reflexivity |].
  repeat constructor; cbn [snd]; rewrite Hp; assumption.
Qed.

Lemma enhanceImage_keeps_shape_witness :
  exists out,
    enhanceImage img_rgb None = Ok out /\
    Xr.band_labels (Xr.coords out) = ["red"; "green"; "blue"]%string /\
    Forall (fun p => List.length (snd p) = 1%nat) (Xr.slices out).
Proof.
  destruct (valid_image_returns img_rgb img_rgb_valid) as [out Hout].
  assert (Hshape : Forall (fun p => List.length (snd p) = 1%nat)
                          (Xr.slices img_rgb))
    by (repeat constructor).
  destruct (enhanceImage_keeps_shape img_rgb out None 1 Hshape Hout) as [Hl Hs].
  exists out. repeat split; assumption.
Defined.

(** X12: an image that holds the three labels but not exactly three
    bands (a fourth band, say) makes the call raise [ValueError] when the
    three-band stack is wrapped with the input's coordinates. *)
Theorem extra_band_raises (xarr : Xr.DataArray) (a : option Scalar) :
  In "red"%string (Xr.band_labels (Xr.coords xarr)) ->
  In "green"%string (Xr.band_labels (Xr.coords xarr)) ->
  In "blue"%string (Xr.band_labels (Xr.coords xarr)) ->
  List.length (Xr.slices xarr) <> 3%nat ->
  enhanceImage xarr a = Raise ValueError.
Proof.
  intros Ir Ig Ib Hlen.
  destruct (sel_present _ _ Ir) as (r0 & Sr & _).
  destruct (sel_present _ _ Ig) as (g0 & Sg & _).
  destruct (sel_present _ _ Ib) as (b0 & Sb & _).
  unfold enhanceImage. rewrite Sr, Sg, Sb. cbn [bind].
  unfold Xr.DataArray_of, Xr.coords.
  cbn [Xr.band_labels Xr.avgS_label _satEnh Np.stack List.length].
  rewrite length_map.
  destruct (Nat.eqb 3 (List.length (Xr.slices xarr))) eqn:E.
  - apply Nat.eqb_eq in E. congruence.
  - reflexivity.
Qed.

Lemma extra_band_raises_witness :
  enhanceImage
    (Xr.mkDataArray
       [("red"%string, [0.2]); ("green"%string, [0.3]);
        ("blue"%string, [0.1]); ("nir"%string, [0.4])] None)
    None = Raise ValueError.
Proof.
  apply extra_band_raises; cbn; auto.
Defined.

(** X13: on every valid image a plain float passed as average
    saturation makes the call raise [AttributeError]; no array is
    returned. *)
Theorem plain_float_always_raises (xarr : Xr.DataArray) (v : R) :
  valid_image xarr ->
  enhanceImage xarr (Some (PyFloat v)) = Raise AttributeError.
Proof.
  intros Hv. pose proof Hv as (Hlen & _).
  destruct (valid_image_sel xarr Hv) as (r0 & g0 & b0 & Sr & Sg & Sb & _).
  unfold enhanceImage. rewrite Sr, Sg, Sb. cbn [bind].
  unfold Xr.DataArray_of, Xr.coords.
  cbn [Xr.band_labels Xr.avgS_label _satEnh Np.stack List.length].
  rewrite length_map, Hlen. reflexivity.
Qed.

Lemma plain_float_always_raises_witness :
  valid_image img_rgb /\
  enhanceImage img_rgb (Some (PyFloat 0.25)) = Raise AttributeError.
Proof.
  split; [exact img_rgb_valid |].
  exact (plain_float_always_raises img_rgb 0.25 img_rgb_valid).
Defined.

(** ** Tiles under one average saturation *)

Lemma sel_tiles (l1 l2 l3 label : string) (a1 a2 a3 b1 b2 b3 ra rb : Band)
    (c1 c2 c3 : option R) :
  Xr.sel (Xr.mkDataArray [(l1, a1); (l2, a2); (l3, a3)] c1) label = Ok ra ->
  Xr.sel (Xr.mkDataArray [(l1, b1); (l2, b2); (l3, b3)] c2) label = Ok rb ->
  Xr.sel (Xr.mkDataArray [(l1, a1 ++ b1); (l2, a2 ++ b2); (l3, a3 ++ b3)] c3)
         label = Ok (ra ++ rb).
Proof.
  unfold Xr.sel. cbn [Xr.slices find fst snd].
  destruct (String.eqb l1 label); [| destruct (String.eqb l2 label);
                                     [| destruct (String.eqb l3 label)]];
    cbn [snd]; intros Ha Hb; try discriminate;
    injection Ha as <-; injection Hb as <-; reflexivity.
Qed.

Lemma processed_app (v : R) (x y : Band) :
  processed v (x ++ y) = processed v x ++ processed v y.
Proof.
  unfold processed, spec_satEnh_band. rewrite !sAdj_band, !map_app. reflexivity.
Qed.

(** X14: with one supplied average saturation the transform works pixel
    by pixel, so tiles can be processed apart: when two images with the
    same band labels are both accepted, the image whose bands are the
    concatenations of theirs is accepted too, and each band of its result
    is the concatenation of the two results' bands. *)
Theorem tiles_commute (l1 l2 l3 : string) (a1 a2 a3 b1 b2 b3 : Band)
    (c1 c2 c3 : option R) (v : R) (o1 o2 : Xr.DataArray) :
  enhanceImage (Xr.mkDataArray [(l1, a1); (l2, a2); (l3, a3)] c1)
               (Some (DataArray0 v)) = Ok o1 ->
  enhanceImage (Xr.mkDataArray [(l1, b1); (l2, b2); (l3, b3)] c2)
               (Some (DataArray0 v)) = Ok o2 ->
  exists x1 x2 x3 y1 y2 y3,
    Xr.slices o1 = [(l1, x1); (l2, x2); (l3, x3)] /\
    Xr.slices o2 = [(l1, y1); (l2, y2); (l3, y3)] /\
    enhanceImage
      (Xr.mkDataArray [(l1, a1 ++ b1); (l2, a2 ++ b2); (l3, a3 ++ b3)] c3)
      (Some (DataArray0 v)) =
    Ok (Xr.mkDataArray [(l1, x1 ++ y1); (l2, x2 ++ y2); (l3, x3 ++ y3)]
                       (Some v)).
Proof.
  intros H1 H2.
  destruct (enhanceImage_inv _ _ _ H1)
    as (ra & ga & ba & va & _ & Ra & Ga & Ba & Hva & ->).
  destruct (enhanceImage_inv _ _ _ H2)
    as (rb & gb & bb & vb & _ & Rb & Gb & Bb & Hvb & ->).
  cbn [values] in Hva, Hvb. injection Hva as <-. injection Hvb as <-.
  exists (processed v ra), (processed v ga), (processed v ba),
         (processed v rb), (processed v gb), (processed v bb).
  repeat split.
  rewrite (enhanceImage_value _ (Some (DataArray0 v))
             (ra ++ rb) (ga ++ gb) (ba ++ bb) v).
  - rewrite !processed_app. reflexivity.
  - reflexivity.
  - apply (sel_tiles _ _ _ _ _ _ _ _ _ _ _ _ c1 c2 c3 Ra Rb).
  - apply (sel_tiles _ _ _ _ _ _ _ _ _ _ _ _ c1 c2 c3 Ga Gb).
  - apply (sel_tiles _ _ _ _ _ _ _ _ _ _ _ _ c1 c2 c3 Ba Bb).
  - reflexivity.
Qed.

Lemma tiles_commute_witness :
  exists x1 x2 x3 y1 y2 y3,
    enhanceImage
      (Xr.mkDataArray
         [("red"%string, [0.2; 0.4]); ("green"%string, [0.3; 0.5]);
          ("blue"%string, [0.1; 0.6])] None)
      (Some (DataArray0 (-0.05))) =
    Ok (Xr.mkDataArray
          [("red"%string, x1 ++ y1); ("green"%string, x2 ++ y2);
           ("blue"%string, x3 ++ y3)]
          (Some (-0.05))).
Proof.
  destruct (tiles_commute "red" "green" "blue"
              [0.2] [0.3] [0.1] [0.4] [0.5] [0.6] None None None (-0.05) _ _
              (enhanceImage_value
                 (Xr.mkDataArray
                    [("red"%string, [0.2]); ("green"%string, [0.3]);
                     ("blue"%string, [0.1])] None)
                 (Some (DataArray0 (-0.05))) [0.2] [0.3] [0.1] (-0.05)
                 eq_refl eq_refl eq_refl eq_refl eq_refl)
              (enhanceImage_value
                 (Xr.mkDataArray
                    [("red"%string, [0.4]); ("green"%string, [0.5]);
                     ("blue"%string, [0.6])] None)
                 (Some (DataArray0 (-0.05))) [0.4] [0.5] [0.6] (-0.05)
                 eq_refl eq_refl eq_refl eq_refl eq_refl))
    as (x1 & x2 & x3 & y1 & y2 & y3 & _ & _ & H).
  exists x1, x2, x3, y1, y2, y3. exact H.
Defined.

(** ** Gamma stage, pivot of the saturation stage, accepted calls *)

(** X15: the gamma stage divides by a positive constant and maps 1 to
    1; in exact arithmetic it is strictly increasing on non-negative
    inputs (in binary64 the sum [b + gOff] absorbs a [b] far below
    [gOff], so such inputs share the output of 0). *)
Theorem adjGamma_normalised (b1 b2 : R) :
  0 <= b1 -> b1 < b2 ->
  0 < gOffRange /\ Px._adjGamma 1 = 1 /\ Px._adjGamma b1 < Px._adjGamma b2.
Proof.
  intros H0 H12. split; [apply gOffRange_pos | split].
  - apply adjGamma_1.
  - apply adjGamma_strict; assumption.
Qed.

Lemma adjGamma_normalised_witness :
  (0 <= 0.25 /\ 0.25 < 0.5) /\
  0 < gOffRange /\ Px._adjGamma 1 = 1 /\ Px._adjGamma 0.25 < Px._adjGamma 0.5.
Proof.
  assert (H0 : 0 <= 0.25) by lra.
  assert (H12 : 0.25 < 0.5) by lra.
  split; [auto | exact (adjGamma_normalised 0.25 0.5 H0 H12)].
Defined.

Lemma pivot_band (s : R) (x : Band) :
  Forall (fun v => 0 <= v <= 1) x ->
  Forall2 (fun v w => (s / (1 - sat) <= v -> v <= w) /\
                      (v <= s / (1 - sat) -> w <= v))
          x (_clip (Np.sadd s (Np.muls x sat))).
Proof.
  unfold _clip, Np.sadd, Np.muls. rewrite !map_map.
  induction 1 as [| v x Hv _ IH]; cbn [map]; constructor; [| exact IH].
  assert (Hp : s / (1 - sat) = - (5 * s)) by (unfold sat; lra).
  rewrite Hp. pose proof (clip_id v Hv) as Hid. split; intros Hc.
  - rewrite <- Hid at 1. apply clip_mono. unfold sat. lra.
  - rewrite <- Hid at 2. apply clip_mono. unfold sat. lra.
Qed.

(** X16: in exact arithmetic the saturation stage stretches around the
    pivot [avgS / (1 - sat)]: in each band, a pixel of [[0,1]] at or
    above the pivot is not lowered and a pixel at or below it is not
    raised (in binary64 a pixel next to the pivot can move by one unit in
    the last place the other way). *)
Theorem satEnh_pivot (r g b : Band) (s : R) :
  Forall (fun v => 0 <= v <= 1) (r ++ g ++ b) ->
  exists r' g' b',
    _satEnh r g b s = [r'; g'; b'] /\
    Forall (fun p =>
              Forall2 (fun v w => (s / (1 - sat) <= v -> v <= w) /\
                                  (v <= s / (1 - sat) -> w <= v))
                      (fst p) (snd p))
           [(r, r'); (g, g'); (b, b')].
Proof.
  intros H. apply Forall_app in H as [Hr H]. apply Forall_app in H as [Hg Hb].
  do 3 eexists. split; [reflexivity |].
  repeat constructor; cbn [fst snd]; apply pivot_band; assumption.
Qed.

Lemma satEnh_pivot_witness :
  exists r' g' b',
    _satEnh [0.2] [0.6] [0.9] (-0.1) = [r'; g'; b'] /\
    Forall (fun p =>
              Forall2 (fun v w => (-0.1 / (1 - sat) <= v -> v <= w) /\
                                  (v <= -0.1 / (1 - sat) -> w <= v))
                      (fst p) (snd p))
           [([0.2], r'); ([0.6], g'); ([0.9], b')].
Proof.
  apply (satEnh_pivot [0.2] [0.6] [0.9] (-0.1)).
  cbn [app]. repeat constructor; lra.
Defined.

(** X17: for an image whose leading dimension is the band dimension and
    an average saturation that is absent, a plain float or a
    zero-dimensional [DataArray], the call returns an array exactly when
    the band coordinate holds red, green and blue, the image has exactly
    three bands, and the average saturation is absent or the
    [DataArray]. *)
Theorem enhanceImage_accepts_iff (xarr : Xr.DataArray) (a : option Scalar) :
  (exists out, enhanceImage xarr a = Ok out) <->
  (In "red"%string (Xr.band_labels (Xr.coords xarr)) /\
   In "green"%string (Xr.band_labels (Xr.coords xarr)) /\
   In "blue"%string (Xr.band_labels (Xr.coords xarr)) /\
   List.length (Xr.slices xarr) = 3%nat /\
   (a = None \/ exists v, a = Some (DataArray0 v))).
Proof.
  split.
  - intros [out H].
    destruct (enhanceImage_inv xarr a out H)
      as (r0 & g0 & b0 & v & Hlen & Hr & Hg & Hb & Hv & _).
    assert (Hin : forall l d, Xr.sel xarr l = Ok d ->
                   In l (Xr.band_labels (Xr.coords xarr))).
    { intros l d Hs. apply sel_ok_in in Hs.
      unfold Xr.coords. cbn [Xr.band_labels].
      change l with (fst (l, d)). apply in_map. exact Hs. }
    repeat split; try (eapply Hin; eassumption); try assumption.
    destruct a as [[w | w] |].
    + cbn in Hv. discriminate.
    + right. exists w. reflexivity.
    + left. reflexivity.
  - intros (Ir & Ig & Ib & Hlen & Ha).
    destruct (sel_present _ _ Ir) as (r0 & Sr & _).
    destruct (sel_present _ _ Ig) as (g0 & Sg & _).
    destruct (sel_present _ _ Ib) as (b0 & Sb & _).
    destruct Ha as [-> | [w ->]].
    + eexists. eapply (enhanceImage_value xarr None r0 g0 b0 _ Hlen Sr Sg Sb).
      reflexivity.
    + eexists. apply (enhanceImage_value xarr _ r0 g0 b0 w Hlen Sr Sg Sb).
      reflexivity.
Qed.

Lemma enhanceImage_accepts_iff_witness :
  exists out, enhanceImage img_rgb None = Ok out.
Proof.
  apply (proj2 (enhanceImage_accepts_iff img_rgb None)).
  cbn. repeat split; auto.
Defined.
